(** * Game Boy Printer protocol definitions

    A shallow embedding of [research/gbp_dev/gameboy_printer_protocol.h]:
    the protocol constants, the single-bit macros, the per-flag status
    macros, the status structure and [gbp_status_byte].

    C values of type [int] and [uint8_t] are represented by [Z].  The
    header is written for AVR boards, where [int] has 16 bits; every
    intermediate value of the macros on a byte and a bit position in
    0..7 stays far inside that range (see [CInt.in_int] and the
    [*_in_int] lemmas), so the bitwise operations of [Z] (two's
    complement, unbounded) agree with the C operators there.  The
    conversion to [uint8_t] that a [return] or an assignment performs is
    written out as [CInt.to_uint8]. *)

From Stdlib Require Import ZArith Lia Bool List.
From stdpp Require Import base gmap.
Import ListNotations.

Local Open Scope Z_scope.

(** ** C integer types *)

Module CInt.

Definition INT_MIN : Z := -32768.
Definition INT_MAX : Z := 32767.
Definition UINT8_MAX : Z := 255.

(** The value is representable in a (16-bit) [int]. *)
Definition in_int (z : Z) : Prop := INT_MIN <= z <= INT_MAX.

(** The value is representable in a [uint8_t]. *)
Definition in_uint8 (z : Z) : Prop := 0 <= z <= UINT8_MAX.

(** Conversion of an [int] to [uint8_t]: reduction modulo 2^8. *)
Definition to_uint8 (z : Z) : Z := z mod 256.

(** The [int] value of a C condition. *)
Definition of_bool (b : bool) : Z := if b then 1 else 0.

End CInt.

(** ** Constants *)

(* Sync Word *)
Definition GBP_SYNC_WORD_0 : Z := 0x88.
Definition GBP_SYNC_WORD_1 : Z := 0x33.
Definition GBP_SYNC_WORD : Z := 0x8833.

(* Command Byte *)
Definition GBP_COMMAND_INIT : Z := 0x01.
Definition GBP_COMMAND_PRINT : Z := 0x02.
Definition GBP_COMMAND_DATA : Z := 0x04.
Definition GBP_COMMAND_BREAK : Z := 0x08.
Definition GBP_COMMAND_INQUIRY : Z := 0x0F.

(* Compression Flag *)
Definition GBP_COMPRESSION_DISABLED : Z := 0x00.
Definition GBP_COMPRESSION_ENABLED : Z := 0x01.

(* Device ID Byte *)
Definition GBP_DEVICE_ID : Z := 0x81.

(* Print Instruction Payload (4 data bytes) *)
Definition GBP_PRINT_INSTRUCT_PAYLOAD_SIZE : Z := 4.
Definition GBP_PRINT_INSTRUCT_INDEX_NUM_OF_SHEETS : Z := 0.
Definition GBP_PRINT_INSTRUCT_INDEX_NUM_OF_LINEFEED : Z := 1.
Definition GBP_PRINT_INSTRUCT_INDEX_PALETTE_VALUE : Z := 2.
Definition GBP_PRINT_INSTRUCT_INDEX_PRINT_DENSITY : Z := 3.

(* State Byte Bit Position *)
Definition GBP_STATUS_BIT_LOWBAT : Z := 7.
Definition GBP_STATUS_BIT_ER2 : Z := 6.
Definition GBP_STATUS_BIT_ER1 : Z := 5.
Definition GBP_STATUS_BIT_ER0 : Z := 4.
Definition GBP_STATUS_BIT_UNTRAN : Z := 3.
Definition GBP_STATUS_BIT_FULL : Z := 2.
Definition GBP_STATUS_BIT_BUSY : Z := 1.
Definition GBP_STATUS_BIT_SUM : Z := 0.

Definition GBP_STATUS_MASK_LOWBAT : Z := Z.shiftl 1 7.
Definition GBP_STATUS_MASK_ER2 : Z := Z.shiftl 1 6.
Definition GBP_STATUS_MASK_ER1 : Z := Z.shiftl 1 5.
Definition GBP_STATUS_MASK_ER0 : Z := Z.shiftl 1 4.
Definition GBP_STATUS_MASK_UNTRAN : Z := Z.shiftl 1 3.
Definition GBP_STATUS_MASK_FULL : Z := Z.shiftl 1 2.
Definition GBP_STATUS_MASK_BUSY : Z := Z.shiftl 1 1.
Definition GBP_STATUS_MASK_SUM : Z := Z.shiftl 1 0.

(** ** Macros *)

(** [#define gpb_setBit(X,BITPOS)   (X | (1 << BITPOS))] *)
Definition gpb_setBit (X BITPOS : Z) : Z :=
  Z.lor X (Z.shiftl 1 BITPOS).

(** [#define gpb_unsetBit(X,BITPOS) (X & (~(1 << BITPOS)))] *)
Definition gpb_unsetBit (X BITPOS : Z) : Z :=
  Z.land X (Z.lnot (Z.shiftl 1 BITPOS)).

(** [#define gpb_getBit(X,BITPOS)   ((X & (1 << BITPOS)) > 0)] *)
Definition gpb_getBit (X BITPOS : Z) : Z :=
  CInt.of_bool (Z.land X (Z.shiftl 1 BITPOS) >? 0).

(** The update macros are assignments [X = SET ? ... : ...] to a status
    byte [X]; each function below gives the value of the [uint8_t]
    variable [X] after the assignment, from its value before. *)

Definition gpb_status_bit_update_low_battery (X : Z) (SET : bool) : Z :=
  CInt.to_uint8 (if SET then gpb_setBit X GBP_STATUS_BIT_LOWBAT
                 else gpb_unsetBit X GBP_STATUS_BIT_LOWBAT).
Definition gpb_status_bit_update_other_error (X : Z) (SET : bool) : Z :=
  CInt.to_uint8 (if SET then gpb_setBit X GBP_STATUS_BIT_ER2
                 else gpb_unsetBit X GBP_STATUS_BIT_ER2).
Definition gpb_status_bit_update_paper_jam (X : Z) (SET : bool) : Z :=
  CInt.to_uint8 (if SET then gpb_setBit X GBP_STATUS_BIT_ER1
                 else gpb_unsetBit X GBP_STATUS_BIT_ER1).
Definition gpb_status_bit_update_packet_error (X : Z) (SET : bool) : Z :=
  CInt.to_uint8 (if SET then gpb_setBit X GBP_STATUS_BIT_ER0
                 else gpb_unsetBit X GBP_STATUS_BIT_ER0).
Definition gpb_status_bit_update_unprocessed_data (X : Z) (SET : bool) : Z :=
  CInt.to_uint8 (if SET then gpb_setBit X GBP_STATUS_BIT_UNTRAN
                 else gpb_unsetBit X GBP_STATUS_BIT_UNTRAN).
Definition gpb_status_bit_update_print_buffer_full (X : Z) (SET : bool) : Z :=
  CInt.to_uint8 (if SET then gpb_setBit X GBP_STATUS_BIT_FULL
                 else gpb_unsetBit X GBP_STATUS_BIT_FULL).
Definition gpb_status_bit_update_printer_busy (X : Z) (SET : bool) : Z :=
  CInt.to_uint8 (if SET then gpb_setBit X GBP_STATUS_BIT_BUSY
                 else gpb_unsetBit X GBP_STATUS_BIT_BUSY).
Definition gpb_status_bit_update_checksum_error (X : Z) (SET : bool) : Z :=
  CInt.to_uint8 (if SET then gpb_setBit X GBP_STATUS_BIT_SUM
                 else gpb_unsetBit X GBP_STATUS_BIT_SUM).

Definition gpb_status_bit_getbit_low_battery (X : Z) : Z :=
  gpb_getBit X GBP_STATUS_BIT_LOWBAT.
Definition gpb_status_bit_getbit_other_error (X : Z) : Z :=
  gpb_getBit X GBP_STATUS_BIT_ER2.
Definition gpb_status_bit_getbit_paper_jam (X : Z) : Z :=
  gpb_getBit X GBP_STATUS_BIT_ER1.
Definition gpb_status_bit_getbit_packet_error (X : Z) : Z :=
  gpb_getBit X GBP_STATUS_BIT_ER0.
Definition gpb_status_bit_getbit_unprocessed_data (X : Z) : Z :=
  gpb_getBit X GBP_STATUS_BIT_UNTRAN.
Definition gpb_status_bit_getbit_print_buffer_full (X : Z) : Z :=
  gpb_getBit X GBP_STATUS_BIT_FULL.
Definition gpb_status_bit_getbit_printer_busy (X : Z) : Z :=
  gpb_getBit X GBP_STATUS_BIT_BUSY.
Definition gpb_status_bit_getbit_checksum_error (X : Z) : Z :=
  gpb_getBit X GBP_STATUS_BIT_SUM.

(** ** Structures *)

(** Gameboy Printer Status Code Structure; the fields are in the order
    of the C declaration. *)
Record gbp_printer_status_t : Type := mk_gbp_printer_status {
  low_battery : bool;
  paper_jam : bool;
  other_error : bool;
  packet_error : bool;
  unprocessed_data : bool;
  print_buffer_full : bool;
  printer_busy : bool;
  checksum_error : bool
}.

(** ** Utilities functions *)

(** The value [gbp_status_byte] returns for the structure its argument
    points to.  [|] associates to the left; the [int] result is
    converted to the return type [uint8_t]. *)
Definition gbp_status_byte (printer_status : gbp_printer_status_t) : Z :=
  CInt.to_uint8
    (Z.lor (Z.lor (Z.lor (Z.lor (Z.lor (Z.lor (Z.lor
      (Z.shiftl (if low_battery printer_status then 1 else 0) GBP_STATUS_BIT_LOWBAT)
      (Z.shiftl (if other_error printer_status then 1 else 0) GBP_STATUS_BIT_ER2))
      (Z.shiftl (if paper_jam printer_status then 1 else 0) GBP_STATUS_BIT_ER1))
      (Z.shiftl (if packet_error printer_status then 1 else 0) GBP_STATUS_BIT_ER0))
      (Z.shiftl (if unprocessed_data printer_status then 1 else 0) GBP_STATUS_BIT_UNTRAN))
      (Z.shiftl (if print_buffer_full printer_status then 1 else 0) GBP_STATUS_BIT_FULL))
      (Z.shiftl (if printer_busy printer_status then 1 else 0) GBP_STATUS_BIT_BUSY))
      (Z.shiftl (if checksum_error printer_status then 1 else 0) GBP_STATUS_BIT_SUM)).

(** *** The call, with the memory it works on

    [gbp_status_byte] takes a pointer and reads the structure field by
    field.  A memory maps the addresses of live status structures to
    their contents.  A C computation takes the memory it starts in and
    gives its value together with the memory it leaves, or is undefined
    ([None]) when it goes through a pointer to no structure; statements
    in sequence thread the memory from one to the next. *)

Module Mem.

Definition address : Type := Z.
Definition memory : Type := gmap Z gbp_printer_status_t.

Definition comp (A : Type) : Type := memory -> option (A * memory).

Definition ret {A : Type} (a : A) : comp A :=
  fun m => Some (a, m).

Definition bind {A B : Type} (c : comp A) (k : A -> comp B) : comp B :=
  fun m =>
    match c m with
    | Some (a, m') => k a m'
    | None => None
    end.

(** The rvalue [ptr->field]. *)
Definition load_field (ptr : address) (field : gbp_printer_status_t -> bool)
  : comp bool :=
  fun m =>
    match m !! ptr with
    | Some s => Some (field s, m)
    | None => None
    end.

(** The assignment [*ptr = s], by which a caller fills a structure; the
    header itself has none. *)
Definition store (ptr : address) (s : gbp_printer_status_t) : comp unit :=
  fun m =>
    match m !! ptr with
    | Some _ => Some (tt, <[ ptr := s ]> m)
    | None => None
    end.

(** The body of [gbp_status_byte]: eight reads through the pointer, in
    the order of the operands of [|], then the OR of the shifted flags
    converted to the return type [uint8_t]. *)
Definition call_gbp_status_byte (printer_status_ptr : address) : comp Z :=
  bind (load_field printer_status_ptr low_battery) (fun lowbat =>
  bind (load_field printer_status_ptr other_error) (fun er2 =>
  bind (load_field printer_status_ptr paper_jam) (fun er1 =>
  bind (load_field printer_status_ptr packet_error) (fun er0 =>
  bind (load_field printer_status_ptr unprocessed_data) (fun untran =>
  bind (load_field printer_status_ptr print_buffer_full) (fun full =>
  bind (load_field printer_status_ptr printer_busy) (fun busy =>
  bind (load_field printer_status_ptr checksum_error) (fun sum =>
  ret (CInt.to_uint8
    (Z.lor (Z.lor (Z.lor (Z.lor (Z.lor (Z.lor (Z.lor
      (Z.shiftl (if lowbat then 1 else 0) GBP_STATUS_BIT_LOWBAT)
      (Z.shiftl (if er2 then 1 else 0) GBP_STATUS_BIT_ER2))
      (Z.shiftl (if er1 then 1 else 0) GBP_STATUS_BIT_ER1))
      (Z.shiftl (if er0 then 1 else 0) GBP_STATUS_BIT_ER0))
      (Z.shiftl (if untran then 1 else 0) GBP_STATUS_BIT_UNTRAN))
      (Z.shiftl (if full then 1 else 0) GBP_STATUS_BIT_FULL))
      (Z.shiftl (if busy then 1 else 0) GBP_STATUS_BIT_BUSY))
      (Z.shiftl (if sum then 1 else 0) GBP_STATUS_BIT_SUM))))))))))).

(** A computation that leaves every memory it returns from as it found
    it. *)
Definition preserves_memory {A : Type} (c : comp A) : Prop :=
  forall (m m' : memory) (a : A), c m = Some (a, m') -> m' = m.

End Mem.

(** ** The status flags as a finite type

    The header names each flag three times (bit position, mask, and the
    update and getbit macros); the enumeration below indexes those
    families so that a statement can range over all of them. *)

Inductive status_flag : Type :=
| LOWBAT | ER2 | ER1 | ER0 | UNTRAN | FULL | BUSY | SUM.

Definition all_flags : list status_flag :=
  [LOWBAT; ER2; ER1; ER0; UNTRAN; FULL; BUSY; SUM].

Definition status_bit (f : status_flag) : Z :=
  match f with
  | LOWBAT => GBP_STATUS_BIT_LOWBAT
  | ER2 => GBP_STATUS_BIT_ER2
  | ER1 => GBP_STATUS_BIT_ER1
  | ER0 => GBP_STATUS_BIT_ER0
  | UNTRAN => GBP_STATUS_BIT_UNTRAN
  | FULL => GBP_STATUS_BIT_FULL
  | BUSY => GBP_STATUS_BIT_BUSY
  | SUM => GBP_STATUS_BIT_SUM
  end.

Definition status_mask (f : status_flag) : Z :=
  match f with
  | LOWBAT => GBP_STATUS_MASK_LOWBAT
  | ER2 => GBP_STATUS_MASK_ER2
  | ER1 => GBP_STATUS_MASK_ER1
  | ER0 => GBP_STATUS_MASK_ER0
  | UNTRAN => GBP_STATUS_MASK_UNTRAN
  | FULL => GBP_STATUS_MASK_FULL
  | BUSY => GBP_STATUS_MASK_BUSY
  | SUM => GBP_STATUS_MASK_SUM
  end.

(** The structure field that [gbp_status_byte] shifts to the flag's bit
    position. *)
Definition status_field (s : gbp_printer_status_t) (f : status_flag) : bool :=
  match f with
  | LOWBAT => low_battery s
  | ER2 => other_error s
  | ER1 => paper_jam s
  | ER0 => packet_error s
  | UNTRAN => unprocessed_data s
  | FULL => print_buffer_full s
  | BUSY => printer_busy s
  | SUM => checksum_error s
  end.

Definition status_bit_update (f : status_flag) (X : Z) (SET : bool) : Z :=
  match f with
  | LOWBAT => gpb_status_bit_update_low_battery X SET
  | ER2 => gpb_status_bit_update_other_error X SET
  | ER1 => gpb_status_bit_update_paper_jam X SET
  | ER0 => gpb_status_bit_update_packet_error X SET
  | UNTRAN => gpb_status_bit_update_unprocessed_data X SET
  | FULL => gpb_status_bit_update_print_buffer_full X SET
  | BUSY => gpb_status_bit_update_printer_busy X SET
  | SUM => gpb_status_bit_update_checksum_error X SET
  end.

Definition status_bit_getbit (f : status_flag) (X : Z) : Z :=
  match f with
  | LOWBAT => gpb_status_bit_getbit_low_battery X
  | ER2 => gpb_status_bit_getbit_other_error X
  | ER1 => gpb_status_bit_getbit_paper_jam X
  | ER0 => gpb_status_bit_getbit_packet_error X
  | UNTRAN => gpb_status_bit_getbit_unprocessed_data X
  | FULL => gpb_status_bit_getbit_print_buffer_full X
  | BUSY => gpb_status_bit_getbit_printer_busy X
  | SUM => gpb_status_bit_getbit_checksum_error X
  end.

(** Bitwise OR of a list of values. *)
Definition lor_all (l : list Z) : Z := fold_right Z.lor 0 l.

(** Two status structures used in examples: no flag raised, and every
    flag raised. *)
Definition status_none : gbp_printer_status_t :=
  {| low_battery := false; paper_jam := false; other_error := false;
     packet_error := false; unprocessed_data := false;
     print_buffer_full := false; printer_busy := false;
     checksum_error := false |}.

Definition status_all : gbp_printer_status_t :=
  {| low_battery := true; paper_jam := true; other_error := true;
     packet_error := true; unprocessed_data := true;
     print_buffer_full := true; printer_busy := true;
     checksum_error := true |}.

(** Two status structures with the same eight flag values. *)
Definition same_flags (s1 s2 : gbp_printer_status_t) : Prop :=
  low_battery s1 = low_battery s2 /\
  paper_jam s1 = paper_jam s2 /\
  other_error s1 = other_error s2 /\
  packet_error s1 = packet_error s2 /\
  unprocessed_data s1 = unprocessed_data s2 /\
  print_buffer_full s1 = print_buffer_full s2 /\
  printer_busy s1 = printer_busy s2 /\
  checksum_error s1 = checksum_error s2.

(** ** Using the macros and the structure together

    What a caller of the header writes with its macros: the conversion
    of a macro's [int] result to [bool], the assignment to one field of
    a status structure, a status structure filled from a byte with the
    getbit macros, and a run of update statements. *)

(** Conversion of an [int] to [bool]: true for every value but 0. *)
Definition int_to_bool (z : Z) : bool := negb (z =? 0).

(** The assignment [s.field = b] to the field of flag [f]. *)
Definition status_set_field (s : gbp_printer_status_t) (f : status_flag)
    (b : bool) : gbp_printer_status_t :=
  match f with
  | LOWBAT =>
      {| low_battery := b; paper_jam := paper_jam s;
         other_error := other_error s; packet_error := packet_error s;
         unprocessed_data := unprocessed_data s;
         print_buffer_full := print_buffer_full s;
         printer_busy := printer_busy s; checksum_error := checksum_error s |}
  | ER2 =>
      {| low_battery := low_battery s; paper_jam := paper_jam s;
         other_error := b; packet_error := packet_error s;
         unprocessed_data := unprocessed_data s;
         print_buffer_full := print_buffer_full s;
         printer_busy := printer_busy s; checksum_error := checksum_error s |}
  | ER1 =>
      {| low_battery := low_battery s; paper_jam := b;
         other_error := other_error s; packet_error := packet_error s;
         unprocessed_data := unprocessed_data s;
         print_buffer_full := print_buffer_full s;
         printer_busy := printer_busy s; checksum_error := checksum_error s |}
  | ER0 =>
      {| low_battery := low_battery s; paper_jam := paper_jam s;
         other_error := other_error s; packet_error := b;
         unprocessed_data := unprocessed_data s;
         print_buffer_full := print_buffer_full s;
         printer_busy := printer_busy s; checksum_error := checksum_error s |}
  | UNTRAN =>
      {| low_battery := low_battery s; paper_jam := paper_jam s;
         other_error := other_error s; packet_error := packet_error s;
         unprocessed_data := b;
         print_buffer_full := print_buffer_full s;
         printer_busy := printer_busy s; checksum_error := checksum_error s |}
  | FULL =>
      {| low_battery := low_battery s; paper_jam := paper_jam s;
         other_error := other_error s; packet_error := packet_error s;
         unprocessed_data := unprocessed_data s;
         print_buffer_full := b;
         printer_busy := printer_busy s; checksum_error := checksum_error s |}
  | BUSY =>
      {| low_battery := low_battery s; paper_jam := paper_jam s;
         other_error := other_error s; packet_error := packet_error s;
         unprocessed_data := unprocessed_data s;
         print_buffer_full := print_buffer_full s;
         printer_busy := b; checksum_error := checksum_error s |}
  | SUM =>
      {| low_battery := low_battery s; paper_jam := paper_jam s;
         other_error := other_error s; packet_error := packet_error s;
         unprocessed_data := unprocessed_data s;
         print_buffer_full := print_buffer_full s;
         printer_busy := printer_busy s; checksum_error := b |}
  end.

(** A status structure whose fields are assigned from the getbit macros
    on a byte, [s.low_battery = gpb_status_bit_getbit_low_battery(X)]
    and so on. *)
Definition status_of_byte (X : Z) : gbp_printer_status_t :=
  {| low_battery := int_to_bool (gpb_status_bit_getbit_low_battery X);
     paper_jam := int_to_bool (gpb_status_bit_getbit_paper_jam X);
     other_error := int_to_bool (gpb_status_bit_getbit_other_error X);
     packet_error := int_to_bool (gpb_status_bit_getbit_packet_error X);
     unprocessed_data :=
       int_to_bool (gpb_status_bit_getbit_unprocessed_data X);
     print_buffer_full :=
       int_to_bool (gpb_status_bit_getbit_print_buffer_full X);
     printer_busy := int_to_bool (gpb_status_bit_getbit_printer_busy X);
     checksum_error := int_to_bool (gpb_status_bit_getbit_checksum_error X) |}.

(** A run of update statements on the status byte [X], one for each
    flag of [l] in turn, each with the field of [s] as its [SET]. *)
Definition status_apply_updates (s : gbp_printer_status_t)
    (l : list status_flag) (X : Z) : Z :=
  fold_left (fun acc f => status_bit_update f acc (status_field s f)) l X.

(** * Proof automation *)

(** Case analysis on the eight fields of a status structure. *)
Ltac status_cases s :=
  destruct s as [[] [] [] [] [] [] [] []].

Ltac decide_closed :=
  vm_compute; repeat split; solve [reflexivity | discriminate].

(** Equality of two values built from the bit macros, bit by bit;
    [set_bits] and [unset_bits] are the lemmas giving the bits of
    [gpb_setBit] and of [gpb_unsetBit]. *)
Ltac bit_macros_eq set_bits unset_bits p q :=
  apply Z.bits_inj'; intros ?i _;
  repeat first [ rewrite set_bits by assumption
               | rewrite unset_bits by assumption ];
  match goal with
  | i : Z |- _ =>
      destruct (Z.eqb_spec i p); destruct (Z.eqb_spec i q);
      destruct (Z.testbit _ i); cbn; solve [reflexivity | congruence]
  end.

(** * Bit-level facts *)

Section Bytes.

Variable z : Z.

Lemma in_uint8_high_bits (i : Z) :
  CInt.in_uint8 z -> 8 <= i -> Z.testbit z i = false.
Proof.
  unfold CInt.in_uint8, CInt.UINT8_MAX. intros Hz Hi.
  rewrite <- (Z.mod_small z (2 ^ 8)) by (change (2 ^ 8) with 256; lia).
  apply Z.mod_pow2_bits_high. lia.
Qed.

Lemma high_bits_in_uint8 :
  (forall i, 8 <= i -> Z.testbit z i = false) -> CInt.in_uint8 z.
Proof.
  intros Hhigh.
  assert (Heq : z mod 2 ^ 8 = z).
  { apply Z.bits_inj'. intros i Hi.
    destruct (Z_lt_le_dec i 8) as [Hlt | Hge].
    - apply Z.mod_pow2_bits_low. lia.
    - rewrite Z.mod_pow2_bits_high by lia. symmetry. now apply Hhigh. }
  pose proof (Z.mod_pos_bound z (2 ^ 8) ltac:(reflexivity)) as Hb.
  rewrite Heq in Hb. change (2 ^ 8) with 256 in Hb.
  unfold CInt.in_uint8, CInt.UINT8_MAX. lia.
Qed.

Lemma to_uint8_id : CInt.in_uint8 z -> CInt.to_uint8 z = z.
Proof.
  unfold CInt.in_uint8, CInt.UINT8_MAX, CInt.to_uint8. intros Hz.
  apply Z.mod_small. lia.
Qed.

Lemma to_uint8_in_uint8 : CInt.in_uint8 (CInt.to_uint8 z).
Proof.
  unfold CInt.in_uint8, CInt.UINT8_MAX, CInt.to_uint8.
  pose proof (Z.mod_pos_bound z 256 ltac:(reflexivity)). lia.
Qed.

Lemma in_uint8_in_int : CInt.in_uint8 z -> CInt.in_int z.
Proof.
  unfold CInt.in_uint8, CInt.in_int, CInt.UINT8_MAX, CInt.INT_MIN,
    CInt.INT_MAX. lia.
Qed.

End Bytes.

(** The macros at a bit position that is not negative. *)
Section BitPosition.

Variable pos : Z.
Hypothesis pos_nonneg : 0 <= pos.

Lemma shiftl_1_testbit (i : Z) :
  Z.testbit (Z.shiftl 1 pos) i = (i =? pos).
Proof.
  rewrite Z.shiftl_1_l, Z.pow2_bits_eqb by assumption.
  apply Z.eqb_sym.
Qed.

Lemma gpb_setBit_testbit (X i : Z) :
  Z.testbit (gpb_setBit X pos) i = Z.testbit X i || (i =? pos).
Proof.
  unfold gpb_setBit. now rewrite Z.lor_spec, shiftl_1_testbit.
Qed.

Lemma gpb_unsetBit_testbit (X i : Z) :
  Z.testbit (gpb_unsetBit X pos) i = Z.testbit X i && negb (i =? pos).
Proof.
  unfold gpb_unsetBit. rewrite Z.land_spec.
  destruct (Z_lt_le_dec i 0) as [Hneg | Hnn].
  - now rewrite (Z.testbit_neg_r X i Hneg).
  - now rewrite Z.lnot_spec, shiftl_1_testbit.
Qed.

(** [X & (1 << BITPOS)] is the mask or zero. *)
Lemma land_shiftl_1 (X : Z) :
  Z.land X (Z.shiftl 1 pos) = if Z.testbit X pos then Z.shiftl 1 pos else 0.
Proof.
  apply Z.bits_inj'. intros i _.
  rewrite Z.land_spec, shiftl_1_testbit.
  destruct (Z.eqb_spec i pos) as [-> | Hne].
  - destruct (Z.testbit X pos); cbn.
    + rewrite shiftl_1_testbit. symmetry. apply Z.eqb_refl.
    + symmetry. apply Z.bits_0.
  - rewrite andb_false_r.
    destruct (Z.testbit X pos).
    + rewrite shiftl_1_testbit. symmetry. now apply Z.eqb_neq.
    + symmetry. apply Z.bits_0.
Qed.

Lemma gpb_getBit_testbit (X : Z) :
  gpb_getBit X pos = CInt.of_bool (Z.testbit X pos).
Proof.
  unfold gpb_getBit. rewrite land_shiftl_1.
  destruct (Z.testbit X pos); cbn; [| reflexivity].
  rewrite Z.shiftl_1_l.
  pose proof (Z.pow_pos_nonneg 2 pos ltac:(lia) pos_nonneg) as Hp.
  destruct (Z.gtb_spec (2 ^ pos) 0); [reflexivity | lia].
Qed.

(** The macros at a bit position of a byte. *)
Hypothesis pos_le_7 : pos <= 7.

(** [1 << BITPOS] and its complement are representable in an [int]. *)
Lemma shift_in_int :
  CInt.in_int (Z.shiftl 1 pos) /\ CInt.in_int (Z.lnot (Z.shiftl 1 pos)).
Proof.
  assert (Hc : pos = 0 \/ pos = 1 \/ pos = 2 \/ pos = 3 \/
               pos = 4 \/ pos = 5 \/ pos = 6 \/ pos = 7) by lia.
  clear pos_nonneg pos_le_7.
  repeat (destruct Hc as [Hc | Hc]; [rewrite Hc; decide_closed |]).
  rewrite Hc; decide_closed.
Qed.

Lemma gpb_setBit_in_uint8 (X : Z) :
  CInt.in_uint8 X -> CInt.in_uint8 (gpb_setBit X pos).
Proof.
  intros HX. apply high_bits_in_uint8. intros i Hi.
  rewrite gpb_setBit_testbit.
  rewrite (in_uint8_high_bits X i HX Hi). cbn.
  apply Z.eqb_neq. lia.
Qed.

Lemma gpb_unsetBit_in_uint8 (X : Z) :
  CInt.in_uint8 X -> CInt.in_uint8 (gpb_unsetBit X pos).
Proof.
  intros HX. apply high_bits_in_uint8. intros i Hi.
  rewrite gpb_unsetBit_testbit.
  now rewrite (in_uint8_high_bits X i HX Hi).
Qed.

(** On a byte and a bit position of a byte, every value the three
    macros compute on the way is representable in an [int]: the C
    operators do what the operations of [Z] do. *)
Lemma gpb_macros_in_int (X : Z) :
  CInt.in_uint8 X ->
  CInt.in_int (Z.shiftl 1 pos) /\
  CInt.in_int (Z.lnot (Z.shiftl 1 pos)) /\
  CInt.in_int (gpb_setBit X pos) /\
  CInt.in_int (gpb_unsetBit X pos) /\
  CInt.in_int (Z.land X (Z.shiftl 1 pos)).
Proof.
  intros HX. destruct shift_in_int as [Hs Hn].
  repeat split; try (apply Hs || apply Hn).
  - now apply in_uint8_in_int, gpb_setBit_in_uint8.
  - now apply in_uint8_in_int, gpb_setBit_in_uint8.
  - now apply in_uint8_in_int, gpb_unsetBit_in_uint8.
  - now apply in_uint8_in_int, gpb_unsetBit_in_uint8.
  - rewrite land_shiftl_1. destruct (Z.testbit X pos); [apply Hs |].
    unfold CInt.INT_MIN. lia.
  - rewrite land_shiftl_1. destruct (Z.testbit X pos); [apply Hs |].
    unfold CInt.INT_MAX. lia.
Qed.

End BitPosition.

(** * Status byte packing *)

Lemma all_flags_complete (f : status_flag) : List.In f all_flags.
Proof. destruct f; cbn; tauto. Qed.

Lemma all_flags_NoDup : List.NoDup all_flags.
Proof.
  unfold all_flags.
  repeat (constructor; [cbn; intuition discriminate |]). constructor.
Qed.

(** Before the conversion to [uint8_t] the OR of the shifted flags is
    already a byte value: the conversion in [gbp_status_byte] truncates
    nothing. *)
Lemma gbp_status_byte_no_truncation (s : gbp_printer_status_t) :
  gbp_status_byte s =
  Z.lor (Z.lor (Z.lor (Z.lor (Z.lor (Z.lor (Z.lor
    (Z.shiftl (CInt.of_bool (low_battery s)) GBP_STATUS_BIT_LOWBAT)
    (Z.shiftl (CInt.of_bool (other_error s)) GBP_STATUS_BIT_ER2))
    (Z.shiftl (CInt.of_bool (paper_jam s)) GBP_STATUS_BIT_ER1))
    (Z.shiftl (CInt.of_bool (packet_error s)) GBP_STATUS_BIT_ER0))
    (Z.shiftl (CInt.of_bool (unprocessed_data s)) GBP_STATUS_BIT_UNTRAN))
    (Z.shiftl (CInt.of_bool (print_buffer_full s)) GBP_STATUS_BIT_FULL))
    (Z.shiftl (CInt.of_bool (printer_busy s)) GBP_STATUS_BIT_BUSY))
    (Z.shiftl (CInt.of_bool (checksum_error s)) GBP_STATUS_BIT_SUM).
Proof. status_cases s; reflexivity. Qed.

(** Bit [status_bit f] of the packed byte is the field of flag [f]. *)
Lemma gbp_status_byte_testbit (s : gbp_printer_status_t) (f : status_flag) :
  Z.testbit (gbp_status_byte s) (status_bit f) = status_field s f.
Proof. status_cases s; destruct f; reflexivity. Qed.

Lemma gbp_status_byte_in_uint8 (s : gbp_printer_status_t) :
  CInt.in_uint8 (gbp_status_byte s).
Proof. unfold gbp_status_byte. apply to_uint8_in_uint8. Qed.

(** C1.  For every status structure, bit b of the byte returned by
    [gbp_status_byte] is set exactly when the flag the status-bit table
    assigns to b is true (low_battery 7, other_error 6, paper_jam 5,
    packet_error 4, unprocessed_data 3, print_buffer_full 2,
    printer_busy 1, checksum_error 0); the byte equals the bitwise OR,
    over the eight flags, of [flag ? (1 << bitpos) : 0]; and it is an
    unsigned 8-bit value. *)
Theorem gbp_status_byte_spec (s : gbp_printer_status_t) :
  (Z.testbit (gbp_status_byte s) 7 = low_battery s /\
   Z.testbit (gbp_status_byte s) 6 = other_error s /\
   Z.testbit (gbp_status_byte s) 5 = paper_jam s /\
   Z.testbit (gbp_status_byte s) 4 = packet_error s /\
   Z.testbit (gbp_status_byte s) 3 = unprocessed_data s /\
   Z.testbit (gbp_status_byte s) 2 = print_buffer_full s /\
   Z.testbit (gbp_status_byte s) 1 = printer_busy s /\
   Z.testbit (gbp_status_byte s) 0 = checksum_error s) /\
  gbp_status_byte s =
    lor_all [ if low_battery s then Z.shiftl 1 7 else 0;
              if other_error s then Z.shiftl 1 6 else 0;
              if paper_jam s then Z.shiftl 1 5 else 0;
              if packet_error s then Z.shiftl 1 4 else 0;
              if unprocessed_data s then Z.shiftl 1 3 else 0;
              if print_buffer_full s then Z.shiftl 1 2 else 0;
              if printer_busy s then Z.shiftl 1 1 else 0;
              if checksum_error s then Z.shiftl 1 0 else 0 ] /\
  0 <= gbp_status_byte s <= 255.
Proof.
  split; [| split].
  - pose proof (gbp_status_byte_testbit s) as Hbit.
    repeat split.
    + exact (Hbit LOWBAT).
    + exact (Hbit ER2).
    + exact (Hbit ER1).
    + exact (Hbit ER0).
    + exact (Hbit UNTRAN).
    + exact (Hbit FULL).
    + exact (Hbit BUSY).
    + exact (Hbit SUM).
  - status_cases s; reflexivity.
  - exact (gbp_status_byte_in_uint8 s).
Qed.

(** C2.  Packing a status structure with [gbp_status_byte] and reading
    each flag back from the byte with its [gpb_status_bit_getbit_*]
    macro gives 1 for a flag that was true and 0 for one that was
    false, for every one of the eight flags and every structure. *)
Theorem gbp_status_byte_getbit_roundtrip (s : gbp_printer_status_t) :
  gpb_status_bit_getbit_low_battery (gbp_status_byte s)
    = CInt.of_bool (low_battery s) /\
  gpb_status_bit_getbit_other_error (gbp_status_byte s)
    = CInt.of_bool (other_error s) /\
  gpb_status_bit_getbit_paper_jam (gbp_status_byte s)
    = CInt.of_bool (paper_jam s) /\
  gpb_status_bit_getbit_packet_error (gbp_status_byte s)
    = CInt.of_bool (packet_error s) /\
  gpb_status_bit_getbit_unprocessed_data (gbp_status_byte s)
    = CInt.of_bool (unprocessed_data s) /\
  gpb_status_bit_getbit_print_buffer_full (gbp_status_byte s)
    = CInt.of_bool (print_buffer_full s) /\
  gpb_status_bit_getbit_printer_busy (gbp_status_byte s)
    = CInt.of_bool (printer_busy s) /\
  gpb_status_bit_getbit_checksum_error (gbp_status_byte s)
    = CInt.of_bool (checksum_error s).
Proof.
  pose proof (gbp_status_byte_testbit s) as Hbit.
  unfold gpb_status_bit_getbit_low_battery, gpb_status_bit_getbit_other_error,
    gpb_status_bit_getbit_paper_jam, gpb_status_bit_getbit_packet_error,
    gpb_status_bit_getbit_unprocessed_data,
    gpb_status_bit_getbit_print_buffer_full,
    gpb_status_bit_getbit_printer_busy, gpb_status_bit_getbit_checksum_error.
  repeat split; rewrite gpb_getBit_testbit by discriminate; f_equal.
  - exact (Hbit LOWBAT).
  - exact (Hbit ER2).
  - exact (Hbit ER1).
  - exact (Hbit ER0).
  - exact (Hbit UNTRAN).
  - exact (Hbit FULL).
  - exact (Hbit BUSY).
  - exact (Hbit SUM).
Qed.

(** C3.  The five spot values of [gbp_status_byte]: no flag gives 0x00,
    all flags give 0xFF, low_battery alone gives 0x80, checksum_error
    alone gives 0x01, printer_busy with unprocessed_data gives 0x0A. *)
Theorem gbp_status_byte_spot_values :
  gbp_status_byte status_none = 0x00 /\
  gbp_status_byte status_all = 0xFF /\
  gbp_status_byte
    {| low_battery := true; paper_jam := false; other_error := false;
       packet_error := false; unprocessed_data := false;
       print_buffer_full := false; printer_busy := false;
       checksum_error := false |} = 0x80 /\
  gbp_status_byte
    {| low_battery := false; paper_jam := false; other_error := false;
       packet_error := false; unprocessed_data := false;
       print_buffer_full := false; printer_busy := false;
       checksum_error := true |} = 0x01 /\
  gbp_status_byte
    {| low_battery := false; paper_jam := false; other_error := false;
       packet_error := false; unprocessed_data := true;
       print_buffer_full := false; printer_busy := true;
       checksum_error := false |} = 0x0A.
Proof. repeat split. Qed.

(** * Status masks *)

Lemma status_mask_shift (f : status_flag) :
  status_mask f = Z.shiftl 1 (status_bit f).
Proof. destruct f; reflexivity. Qed.

Lemma status_bit_range (f : status_flag) : 0 <= status_bit f <= 7.
Proof. destruct f; vm_compute; split; discriminate. Qed.

Lemma status_bit_inj (f g : status_flag) :
  status_bit f = status_bit g -> f = g.
Proof. destruct f, g; cbn; intros H; (reflexivity || discriminate H). Qed.

Lemma status_mask_testbit (f : status_flag) (i : Z) :
  Z.testbit (status_mask f) i = (i =? status_bit f).
Proof.
  rewrite status_mask_shift. apply shiftl_1_testbit, status_bit_range.
Qed.

(** C4.  Each of the eight masks [GBP_STATUS_MASK_*] is 1 shifted left
    by the flag's [GBP_STATUS_BIT_*] position, hence a power of two
    with exactly one bit set; the masks of two different flags have no
    bit in common; and for every status structure the byte returned by
    [gbp_status_byte] is the bitwise OR of the masks of the flags that
    are true. *)
Theorem status_masks_one_bit_each :
  (forall f, status_mask f = Z.shiftl 1 (status_bit f)) /\
  (forall f, status_mask f = 2 ^ status_bit f /\
             forall i, Z.testbit (status_mask f) i = (i =? status_bit f)) /\
  (forall f g, f <> g -> Z.land (status_mask f) (status_mask g) = 0) /\
  (forall s, gbp_status_byte s =
             lor_all (map status_mask (List.filter (status_field s) all_flags))).
Proof.
  split; [exact status_mask_shift |].
  split; [| split].
  - intros f. split.
    + rewrite status_mask_shift. apply Z.shiftl_1_l.
    + apply status_mask_testbit.
  - intros f g Hne. apply Z.bits_inj'. intros i _.
    rewrite Z.land_spec, !status_mask_testbit, Z.bits_0.
    destruct (Z.eqb_spec i (status_bit f)) as [Hf | Hf]; [| reflexivity].
    destruct (Z.eqb_spec i (status_bit g)) as [Hg | Hg]; [| reflexivity].
    exfalso. apply Hne, status_bit_inj. congruence.
  - intros s. status_cases s; reflexivity.
Qed.

Lemma status_masks_one_bit_each_witness :
  LOWBAT <> SUM /\
  Z.land (status_mask LOWBAT) (status_mask SUM) = 0.
Proof.
  split.
  - discriminate.
  - apply (proj1 (proj2 (proj2 status_masks_one_bit_each)) LOWBAT SUM).
    discriminate.
Defined.

(** * Single-bit macros *)

(** C5.  For a byte x and a bit position pos in 0..7, [gpb_setBit]
    gives x with bit pos set and [gpb_unsetBit] gives x with bit pos
    cleared, every other bit being that of x and the result again a
    byte; [gpb_getBit] gives 1 when bit pos of x is set and 0 when it
    is not. *)
Theorem gpb_bit_macros_spec (x pos : Z) :
  0 <= x <= 255 ->
  0 <= pos <= 7 ->
  (forall i, Z.testbit (gpb_setBit x pos) i =
             if i =? pos then true else Z.testbit x i) /\
  (forall i, Z.testbit (gpb_unsetBit x pos) i =
             if i =? pos then false else Z.testbit x i) /\
  gpb_getBit x pos = (if Z.testbit x pos then 1 else 0) /\
  0 <= gpb_setBit x pos <= 255 /\
  0 <= gpb_unsetBit x pos <= 255.
Proof.
  intros Hx [Hpos0 Hpos7].
  split; [| split; [| split; [| split]]].
  - intros i. rewrite gpb_setBit_testbit by assumption.
    destruct (i =? pos); [apply orb_true_r | apply orb_false_r].
  - intros i. rewrite gpb_unsetBit_testbit by assumption.
    destruct (i =? pos); [apply andb_false_r | apply andb_true_r].
  - now apply gpb_getBit_testbit.
  - now apply gpb_setBit_in_uint8.
  - now apply gpb_unsetBit_in_uint8.
Qed.

Lemma gpb_bit_macros_spec_witness :
  0 <= 0x5A <= 255 /\
  0 <= 2 <= 7 /\
  (forall i, Z.testbit (gpb_setBit 0x5A 2) i =
             if i =? 2 then true else Z.testbit 0x5A i) /\
  (forall i, Z.testbit (gpb_unsetBit 0x5A 2) i =
             if i =? 2 then false else Z.testbit 0x5A i) /\
  gpb_getBit 0x5A 2 = (if Z.testbit 0x5A 2 then 1 else 0) /\
  0 <= gpb_setBit 0x5A 2 <= 255 /\
  0 <= gpb_unsetBit 0x5A 2 <= 255.
Proof.
  split; [lia |]. split; [lia |].
  apply (gpb_bit_macros_spec 0x5A 2); lia.
Defined.

(** * Protocol constants *)

(** C6.  [GBP_SYNC_WORD_0] is 0x88, [GBP_SYNC_WORD_1] is 0x33, and the
    two bytes put together most significant first,
    [(GBP_SYNC_WORD_0 << 8) | GBP_SYNC_WORD_1], give 0x8833, the value
    of [GBP_SYNC_WORD]. *)
Theorem sync_word_bytes :
  GBP_SYNC_WORD_0 = 0x88 /\
  GBP_SYNC_WORD_1 = 0x33 /\
  Z.lor (Z.shiftl GBP_SYNC_WORD_0 8) GBP_SYNC_WORD_1 = 0x8833 /\
  Z.lor (Z.shiftl GBP_SYNC_WORD_0 8) GBP_SYNC_WORD_1 = GBP_SYNC_WORD.
Proof. repeat split. Qed.

(** C7.  The command constants are INIT 0x01, PRINT 0x02, DATA 0x04,
    BREAK 0x08 and INQUIRY 0x0F, each a byte value and no two of them
    equal; the compression constants are DISABLED 0x00 and ENABLED
    0x01; the device ID is 0x81, with bit 7 set and the device number 1
    in its low seven bits. *)
Theorem protocol_constants :
  [GBP_COMMAND_INIT; GBP_COMMAND_PRINT; GBP_COMMAND_DATA;
   GBP_COMMAND_BREAK; GBP_COMMAND_INQUIRY] = [0x01; 0x02; 0x04; 0x08; 0x0F] /\
  Forall CInt.in_uint8
    [GBP_COMMAND_INIT; GBP_COMMAND_PRINT; GBP_COMMAND_DATA;
     GBP_COMMAND_BREAK; GBP_COMMAND_INQUIRY] /\
  List.NoDup
    [GBP_COMMAND_INIT; GBP_COMMAND_PRINT; GBP_COMMAND_DATA;
     GBP_COMMAND_BREAK; GBP_COMMAND_INQUIRY] /\
  GBP_COMPRESSION_DISABLED = 0x00 /\
  GBP_COMPRESSION_ENABLED = 0x01 /\
  GBP_DEVICE_ID = 0x81 /\
  Z.testbit GBP_DEVICE_ID 7 = true /\
  Z.land GBP_DEVICE_ID 0x7F = 1.
Proof.
  split; [reflexivity |]. split; [| split].
  - repeat (constructor; [decide_closed |]). constructor.
  - repeat (constructor; [cbn; intuition discriminate |]). constructor.
  - repeat split.
Qed.

(** C8.  The print instruction payload has
    [GBP_PRINT_INSTRUCT_PAYLOAD_SIZE] = 4 bytes, and the index
    constants of its fields are sheets 0, linefeed 1, palette 2 and
    density 3: the four positions of the payload, in this order. *)
Theorem print_instruct_payload_layout :
  GBP_PRINT_INSTRUCT_PAYLOAD_SIZE = 4 /\
  GBP_PRINT_INSTRUCT_INDEX_NUM_OF_SHEETS = 0 /\
  GBP_PRINT_INSTRUCT_INDEX_NUM_OF_LINEFEED = 1 /\
  GBP_PRINT_INSTRUCT_INDEX_PALETTE_VALUE = 2 /\
  GBP_PRINT_INSTRUCT_INDEX_PRINT_DENSITY = 3 /\
  [GBP_PRINT_INSTRUCT_INDEX_NUM_OF_SHEETS;
   GBP_PRINT_INSTRUCT_INDEX_NUM_OF_LINEFEED;
   GBP_PRINT_INSTRUCT_INDEX_PALETTE_VALUE;
   GBP_PRINT_INSTRUCT_INDEX_PRINT_DENSITY]
  = map Z.of_nat (seq 0 (Z.to_nat GBP_PRINT_INSTRUCT_PAYLOAD_SIZE)).
Proof. repeat split. Qed.

(** * The call of [gbp_status_byte] *)

Lemma same_flags_eq (s1 s2 : gbp_printer_status_t) :
  same_flags s1 s2 -> s1 = s2.
Proof.
  destruct s1, s2. unfold same_flags. cbn.
  intros (-> & -> & -> & -> & -> & -> & -> & ->). reflexivity.
Qed.

(** Effects of the computations on the memory: returning a value and
    reading a field leave it alone, and so does a sequence of
    computations that each do; a store does not. *)

Lemma preserves_memory_ret {A : Type} (a : A) :
  Mem.preserves_memory (Mem.ret a).
Proof. intros m m' a' H. unfold Mem.ret in H. congruence. Qed.

Lemma preserves_memory_load_field
    (ptr : Mem.address) (field : gbp_printer_status_t -> bool) :
  Mem.preserves_memory (Mem.load_field ptr field).
Proof.
  intros m m' b H. unfold Mem.load_field in H.
  destruct (m !! ptr); congruence.
Qed.

Lemma preserves_memory_bind {A B : Type}
    (c : Mem.comp A) (k : A -> Mem.comp B) :
  Mem.preserves_memory c ->
  (forall a, Mem.preserves_memory (k a)) ->
  Mem.preserves_memory (Mem.bind c k).
Proof.
  intros Hc Hk m m' b H. unfold Mem.bind in H.
  destruct (c m) as [[a m1] |] eqn:Hcm; [| discriminate].
  apply Hc in Hcm. subst m1. exact (Hk a m m' b H).
Qed.

Lemma store_changes_memory
    (ptr : Mem.address) (s s0 : gbp_printer_status_t) (m : Mem.memory) :
  m !! ptr = Some s0 -> s <> s0 ->
  exists m', Mem.store ptr s m = Some (tt, m') /\ m' <> m.
Proof.
  intros Hm Hne. exists (<[ ptr := s ]> m). split.
  - unfold Mem.store. now rewrite Hm.
  - intros Heq.
    assert (Hl : (<[ ptr := s ]> m) !! ptr = Some s0) by now rewrite Heq.
    unfold Mem.memory, Mem.address in *.
    rewrite lookup_insert_eq in Hl. congruence.
Qed.

Lemma bind_load_field {B : Type}
    (ptr : Mem.address) (field : gbp_printer_status_t -> bool)
    (k : bool -> Mem.comp B) (m : Mem.memory) (s : gbp_printer_status_t) :
  m !! ptr = Some s ->
  Mem.bind (Mem.load_field ptr field) k m = k (field s) m.
Proof. intros Hm. unfold Mem.bind, Mem.load_field. now rewrite Hm. Qed.

(** The call leaves the memory as it found it. *)
Lemma call_gbp_status_byte_preserves_memory (ptr : Mem.address) :
  Mem.preserves_memory (Mem.call_gbp_status_byte ptr).
Proof.
  unfold Mem.call_gbp_status_byte.
  repeat (apply preserves_memory_bind;
          [apply preserves_memory_load_field | intros ?]).
  apply preserves_memory_ret.
Qed.

(** Through a pointer to a structure the call returns, with the byte
    that [gbp_status_byte] gives for the structure. *)
Lemma call_gbp_status_byte_returns
    (ptr : Mem.address) (m : Mem.memory) (s : gbp_printer_status_t) :
  m !! ptr = Some s ->
  exists m', Mem.call_gbp_status_byte ptr m = Some (gbp_status_byte s, m').
Proof.
  intros Hm. exists m. unfold Mem.call_gbp_status_byte.
  rewrite !(bind_load_field ptr _ _ m s Hm). reflexivity.
Qed.

(** Through a pointer to no structure the call is undefined. *)
Lemma call_gbp_status_byte_undefined (ptr : Mem.address) (m : Mem.memory) :
  m !! ptr = None -> Mem.call_gbp_status_byte ptr m = None.
Proof.
  intros Hm. unfold Mem.call_gbp_status_byte, Mem.bind, Mem.load_field.
  now rewrite Hm.
Qed.

(** C9.  Two calls of [gbp_status_byte], in any two memories and
    through any two pointers, on status structures with equal flag
    values both return, with the same byte, whatever else the two
    memories hold; and each call leaves its memory, the structure
    pointed to included, as it was. *)
Theorem gbp_status_byte_deterministic_pure
    (m1 m2 : Mem.memory) (p1 p2 : Mem.address)
    (s1 s2 : gbp_printer_status_t) :
  m1 !! p1 = Some s1 ->
  m2 !! p2 = Some s2 ->
  same_flags s1 s2 ->
  exists (byte : Z) (m1' m2' : Mem.memory),
    Mem.call_gbp_status_byte p1 m1 = Some (byte, m1') /\
    Mem.call_gbp_status_byte p2 m2 = Some (byte, m2') /\
    m1' = m1 /\ m2' = m2 /\
    m1' !! p1 = Some s1 /\
    m2' !! p2 = Some s2 /\
    byte = gbp_status_byte s1.
Proof.
  intros H1 H2 Hsame.
  destruct (call_gbp_status_byte_returns p1 m1 s1 H1) as [m1' Hcall1].
  destruct (call_gbp_status_byte_returns p2 m2 s2 H2) as [m2' Hcall2].
  pose proof (call_gbp_status_byte_preserves_memory p1 _ _ _ Hcall1) as Hm1.
  pose proof (call_gbp_status_byte_preserves_memory p2 _ _ _ Hcall2) as Hm2.
  rewrite <- (same_flags_eq s1 s2 Hsame) in Hcall2.
  exists (gbp_status_byte s1), m1', m2'. subst m1' m2'.
  repeat split; assumption.
Qed.

Lemma gbp_status_byte_deterministic_pure_witness :
  exists (byte : Z) (m1' m2' : Mem.memory),
    Mem.call_gbp_status_byte 16 (<[ 16 := status_all ]> ∅)
      = Some (byte, m1') /\
    Mem.call_gbp_status_byte 32
      (<[ 32 := status_all ]> (<[ 16 := status_none ]> ∅))
      = Some (byte, m2') /\
    m1' = <[ 16 := status_all ]> ∅ /\
    m2' = <[ 32 := status_all ]> (<[ 16 := status_none ]> ∅) /\
    m1' !! 16 = Some status_all /\
    m2' !! 32 = Some status_all /\
    byte = gbp_status_byte status_all.
Proof.
  apply (gbp_status_byte_deterministic_pure
           (<[ 16 := status_all ]> ∅)
           (<[ 32 := status_all ]> (<[ 16 := status_none ]> ∅))
           16 32 status_all status_all).
  - reflexivity.
  - reflexivity.
  - repeat split.
Defined.

(** * Per-flag update macros *)

Lemma status_bit_update_unfold (f : status_flag) (X : Z) (SET : bool) :
  status_bit_update f X SET =
  CInt.to_uint8 (if SET then gpb_setBit X (status_bit f)
                 else gpb_unsetBit X (status_bit f)).
Proof. destruct f; reflexivity. Qed.

Lemma status_bit_getbit_unfold (f : status_flag) (X : Z) :
  status_bit_getbit f X = gpb_getBit X (status_bit f).
Proof. destruct f; reflexivity. Qed.

(** C10.  For a status byte x, a flag f and a boolean SET, the byte
    that the update macro of f assigns has SET at the bit position of f
    and the bit of x at every other position, and the getbit macro of f
    reads SET (as 1 or 0) from it. *)
Theorem status_bit_update_frame (f : status_flag) (x : Z) (SET : bool) :
  0 <= x <= 255 ->
  Z.testbit (status_bit_update f x SET) (status_bit f) = SET /\
  (forall i, i <> status_bit f ->
             Z.testbit (status_bit_update f x SET) i = Z.testbit x i) /\
  status_bit_getbit f (status_bit_update f x SET) = (if SET then 1 else 0).
Proof.
  intros Hx.
  destruct (status_bit_range f) as [Hpos0 Hpos7].
  assert (Hbits : forall i,
    Z.testbit (status_bit_update f x SET) i =
    if i =? status_bit f then SET else Z.testbit x i).
  { intros i. rewrite status_bit_update_unfold.
    destruct SET.
    - rewrite to_uint8_id by now apply gpb_setBit_in_uint8.
      rewrite gpb_setBit_testbit by assumption.
      destruct (i =? status_bit f); [apply orb_true_r | apply orb_false_r].
    - rewrite to_uint8_id by now apply gpb_unsetBit_in_uint8.
      rewrite gpb_unsetBit_testbit by assumption.
      destruct (i =? status_bit f); [apply andb_false_r | apply andb_true_r]. }
  split; [| split].
  - rewrite Hbits, Z.eqb_refl. reflexivity.
  - intros i Hi. rewrite Hbits.
    destruct (Z.eqb_spec i (status_bit f)); [contradiction | reflexivity].
  - rewrite status_bit_getbit_unfold, gpb_getBit_testbit by assumption.
    rewrite Hbits, Z.eqb_refl. reflexivity.
Qed.

Lemma status_bit_update_frame_witness :
  0 <= 0xA5 <= 255 /\
  Z.testbit (status_bit_update BUSY 0xA5 true) (status_bit BUSY) = true /\
  (forall i, i <> status_bit BUSY ->
             Z.testbit (status_bit_update BUSY 0xA5 true) i
             = Z.testbit 0xA5 i) /\
  status_bit_getbit BUSY (status_bit_update BUSY 0xA5 true) = 1.
Proof.
  split; [lia |].
  apply (status_bit_update_frame BUSY 0xA5 true). lia.
Defined.

(** * Composition of the status macros *)

Lemma status_flag_eq_dec (f g : status_flag) : {f = g} + {f <> g}.
Proof. decide equality. Qed.

Lemma status_bit_covers (i : Z) :
  0 <= i <= 7 -> exists f, status_bit f = i.
Proof.
  intros Hi.
  assert (Hc : i = 0 \/ i = 1 \/ i = 2 \/ i = 3 \/
               i = 4 \/ i = 5 \/ i = 6 \/ i = 7) by lia.
  destruct Hc as [-> | [-> | [-> | [-> | [-> | [-> | [-> | ->]]]]]]].
  - now exists SUM.
  - now exists BUSY.
  - now exists FULL.
  - now exists UNTRAN.
  - now exists ER0.
  - now exists ER1.
  - now exists ER2.
  - now exists LOWBAT.
Qed.

(** Two bytes that agree on the eight flag bits are equal. *)
Lemma byte_eq_by_flags (x y : Z) :
  CInt.in_uint8 x -> CInt.in_uint8 y ->
  (forall f, Z.testbit x (status_bit f) = Z.testbit y (status_bit f)) ->
  x = y.
Proof.
  intros Hx Hy Hflags. apply Z.bits_inj'. intros i Hi.
  destruct (Z_lt_le_dec i 8) as [Hlt | Hge].
  - destruct (status_bit_covers i ltac:(lia)) as [f <-]. apply Hflags.
  - now rewrite (in_uint8_high_bits x i Hx Hge),
                (in_uint8_high_bits y i Hy Hge).
Qed.

Lemma status_bit_update_in_uint8 (f : status_flag) (X : Z) (SET : bool) :
  CInt.in_uint8 (status_bit_update f X SET).
Proof. rewrite status_bit_update_unfold. apply to_uint8_in_uint8. Qed.

Lemma status_bit_update_testbit (f : status_flag) (x : Z) (SET : bool) (i : Z) :
  CInt.in_uint8 x ->
  Z.testbit (status_bit_update f x SET) i =
  if i =? status_bit f then SET else Z.testbit x i.
Proof.
  intros Hx. destruct (status_bit_range f) as [Hpos0 Hpos7].
  rewrite status_bit_update_unfold. destruct SET.
  - rewrite to_uint8_id by now apply gpb_setBit_in_uint8.
    rewrite gpb_setBit_testbit by assumption.
    destruct (i =? status_bit f); [apply orb_true_r | apply orb_false_r].
  - rewrite to_uint8_id by now apply gpb_unsetBit_in_uint8.
    rewrite gpb_unsetBit_testbit by assumption.
    destruct (i =? status_bit f); [apply andb_false_r | apply andb_true_r].
Qed.

Lemma status_bit_getbit_testbit (f : status_flag) (X : Z) :
  status_bit_getbit f X = CInt.of_bool (Z.testbit X (status_bit f)).
Proof.
  rewrite status_bit_getbit_unfold.
  apply gpb_getBit_testbit, status_bit_range.
Qed.

Lemma int_to_bool_of_bool (b : bool) : int_to_bool (CInt.of_bool b) = b.
Proof. destruct b; reflexivity. Qed.

Lemma status_bit_eqb_neq (f g : status_flag) :
  f <> g -> (status_bit f =? status_bit g) = false.
Proof.
  intros Hne. apply Z.eqb_neq. intros Heq. apply Hne.
  now apply status_bit_inj.
Qed.

(** X1.  On a status byte, the update macros of two different flags can
    be run in either order: the byte after both is the same. *)
Theorem status_bit_update_comm
    (f g : status_flag) (x : Z) (a b : bool) :
  0 <= x <= 255 ->
  f <> g ->
  status_bit_update f (status_bit_update g x b) a =
  status_bit_update g (status_bit_update f x a) b.
Proof.
  intros Hx Hne.
  apply byte_eq_by_flags; try apply status_bit_update_in_uint8.
  intros h.
  rewrite !status_bit_update_testbit
    by (assumption || apply status_bit_update_in_uint8).
  destruct (Z.eqb_spec (status_bit h) (status_bit f)) as [Hf | Hf];
    destruct (Z.eqb_spec (status_bit h) (status_bit g)) as [Hg | Hg];
    try reflexivity.
  exfalso. apply Hne, status_bit_inj. congruence.
Qed.

Lemma status_bit_update_comm_witness :
  0 <= 0x3C <= 255 /\ LOWBAT <> FULL /\
  status_bit_update LOWBAT (status_bit_update FULL 0x3C false) true =
  status_bit_update FULL (status_bit_update LOWBAT 0x3C true) false.
Proof.
  split; [lia |]. split; [discriminate |].
  apply (status_bit_update_comm LOWBAT FULL 0x3C true false);
    [lia | discriminate].
Defined.

(** X2.  On a status byte, a second update of the same flag overrides
    the first, and an update that writes back the value the getbit
    macro of the flag has just read leaves the byte as it is. *)
Theorem status_bit_update_overwrite
    (f : status_flag) (x : Z) (a b : bool) :
  0 <= x <= 255 ->
  status_bit_update f (status_bit_update f x a) b = status_bit_update f x b /\
  status_bit_update f x (int_to_bool (status_bit_getbit f x)) = x.
Proof.
  intros Hx. split.
  - apply byte_eq_by_flags; try apply status_bit_update_in_uint8.
    intros h.
    rewrite !status_bit_update_testbit
      by (assumption || apply status_bit_update_in_uint8).
    destruct (status_bit h =? status_bit f); reflexivity.
  - apply byte_eq_by_flags;
      [apply status_bit_update_in_uint8 | assumption |].
    intros h. rewrite status_bit_update_testbit by assumption.
    rewrite status_bit_getbit_testbit, int_to_bool_of_bool.
    destruct (Z.eqb_spec (status_bit h) (status_bit f)) as [-> | _];
      reflexivity.
Qed.

Lemma status_bit_update_overwrite_witness :
  0 <= 0x3C <= 255 /\
  status_bit_update ER1 (status_bit_update ER1 0x3C false) true
    = status_bit_update ER1 0x3C true /\
  status_bit_update ER1 0x3C (int_to_bool (status_bit_getbit ER1 0x3C))
    = 0x3C.
Proof.
  split; [lia |].
  apply (status_bit_update_overwrite ER1 0x3C false true). lia.
Defined.

(** Bit [status_bit g] of the byte packed from a structure with one
    field reassigned. *)
Lemma status_set_field_field
    (s : gbp_printer_status_t) (f g : status_flag) (b : bool) :
  status_field (status_set_field s f b) g =
  if status_bit g =? status_bit f then b else status_field s g.
Proof. destruct f, g; reflexivity. Qed.

(** X3.  Updating a flag in the packed byte with its update macro gives
    the byte packed from the structure with that field assigned: the
    macros on the byte follow the assignments to the structure. *)
Theorem status_bit_update_pack
    (s : gbp_printer_status_t) (f : status_flag) (b : bool) :
  status_bit_update f (gbp_status_byte s) b =
  gbp_status_byte (status_set_field s f b).
Proof.
  apply byte_eq_by_flags;
    [apply status_bit_update_in_uint8 | apply gbp_status_byte_in_uint8 |].
  intros g.
  rewrite status_bit_update_testbit by apply gbp_status_byte_in_uint8.
  rewrite !gbp_status_byte_testbit. symmetry.
  apply status_set_field_field.
Qed.

Lemma status_apply_updates_in_uint8
    (s : gbp_printer_status_t) (l : list status_flag) (x : Z) :
  CInt.in_uint8 x -> CInt.in_uint8 (status_apply_updates s l x).
Proof.
  revert x. induction l as [| g l IH]; intros x Hx; cbn.
  - assumption.
  - apply IH, status_bit_update_in_uint8.
Qed.

(** After a run of updates, the bit of a flag holds the field of the
    structure as soon as the flag was in the run, or its bit held the
    field before. *)
Lemma status_apply_updates_testbit
    (s : gbp_printer_status_t) (l : list status_flag) (f : status_flag) :
  forall x,
    CInt.in_uint8 x ->
    List.In f l \/ Z.testbit x (status_bit f) = status_field s f ->
    Z.testbit (status_apply_updates s l x) (status_bit f) = status_field s f.
Proof.
  induction l as [| g l IH]; intros x Hx Hf; cbn.
  - destruct Hf as [[] | Hf]. exact Hf.
  - apply IH; [apply status_bit_update_in_uint8 |].
    destruct (status_flag_eq_dec f g) as [-> | Hne].
    + right. rewrite status_bit_update_testbit by assumption.
      now rewrite Z.eqb_refl.
    + destruct Hf as [[Heq | Hin] | Hbit].
      * congruence.
      * now left.
      * right. rewrite status_bit_update_testbit by assumption.
        now rewrite (status_bit_eqb_neq f g Hne).
Qed.

(** X4.  Starting from any status byte, a run of update macros that
    names every flag at least once, in any order and with the fields of
    a structure as the values, ends in the byte [gbp_status_byte]
    returns for the structure. *)
Theorem status_apply_updates_pack
    (s : gbp_printer_status_t) (l : list status_flag) (x : Z) :
  0 <= x <= 255 ->
  (forall f, List.In f l) ->
  status_apply_updates s l x = gbp_status_byte s.
Proof.
  intros Hx Hall.
  apply byte_eq_by_flags;
    [now apply status_apply_updates_in_uint8
    | apply gbp_status_byte_in_uint8 |].
  intros f. rewrite gbp_status_byte_testbit.
  apply status_apply_updates_testbit; [assumption | left; apply Hall].
Qed.

Lemma status_apply_updates_pack_witness :
  0 <= 0xC3 <= 255 /\
  (forall f, List.In f [SUM; LOWBAT; ER2; ER1; ER0; UNTRAN; FULL; BUSY; SUM]) /\
  status_apply_updates status_none
    [SUM; LOWBAT; ER2; ER1; ER0; UNTRAN; FULL; BUSY; SUM] 0xC3
  = gbp_status_byte status_none.
Proof.
  assert (Hall : forall f,
    List.In f [SUM; LOWBAT; ER2; ER1; ER0; UNTRAN; FULL; BUSY; SUM])
    by (intros f; destruct f; cbn; tauto).
  split; [lia |]. split; [exact Hall |].
  apply (status_apply_updates_pack status_none
           [SUM; LOWBAT; ER2; ER1; ER0; UNTRAN; FULL; BUSY; SUM] 0xC3);
    [lia | exact Hall].
Defined.

(** * Packing is one-to-one and onto the bytes *)

Lemma status_eq_by_fields (s1 s2 : gbp_printer_status_t) :
  (forall f, status_field s1 f = status_field s2 f) -> s1 = s2.
Proof.
  intros H. apply same_flags_eq. unfold same_flags.
  repeat split.
  - exact (H LOWBAT).
  - exact (H ER1).
  - exact (H ER2).
  - exact (H ER0).
  - exact (H UNTRAN).
  - exact (H FULL).
  - exact (H BUSY).
  - exact (H SUM).
Qed.

(** X5.  Two status structures that [gbp_status_byte] packs to the same
    byte have the same flags: no two statuses share a byte. *)
Theorem gbp_status_byte_inj (s1 s2 : gbp_printer_status_t) :
  gbp_status_byte s1 = gbp_status_byte s2 -> s1 = s2.
Proof.
  intros Heq. apply status_eq_by_fields. intros f.
  rewrite <- !gbp_status_byte_testbit. now rewrite Heq.
Qed.

Lemma gbp_status_byte_inj_witness :
  gbp_status_byte status_all
    = gbp_status_byte (status_set_field status_all SUM true) /\
  status_all = status_set_field status_all SUM true.
Proof.
  split; [reflexivity |].
  apply (gbp_status_byte_inj status_all (status_set_field status_all SUM true)).
  reflexivity.
Defined.

Lemma status_of_byte_field (X : Z) (f : status_flag) :
  status_field (status_of_byte X) f = int_to_bool (status_bit_getbit f X).
Proof. destruct f; reflexivity. Qed.

(** The fields read from a byte by the getbit macros pack to the byte. *)
Lemma gbp_status_byte_of_byte (x : Z) :
  CInt.in_uint8 x -> gbp_status_byte (status_of_byte x) = x.
Proof.
  intros Hx.
  apply byte_eq_by_flags; [apply gbp_status_byte_in_uint8 | assumption |].
  intros f.
  now rewrite gbp_status_byte_testbit, status_of_byte_field,
    status_bit_getbit_testbit, int_to_bool_of_bool.
Qed.

(** X6.  Every byte is the packed form of a status: filling a structure
    from a byte with the eight getbit macros and packing it with
    [gbp_status_byte] gives the byte back. *)
Theorem status_of_byte_roundtrip (x : Z) :
  0 <= x <= 255 ->
  gbp_status_byte (status_of_byte x) = x.
Proof. exact (gbp_status_byte_of_byte x). Qed.

Lemma status_of_byte_roundtrip_witness :
  0 <= 0xA6 <= 255 /\ gbp_status_byte (status_of_byte 0xA6) = 0xA6.
Proof.
  split; [lia |]. apply (status_of_byte_roundtrip 0xA6). lia.
Defined.

(** * Masks and getbit macros *)

Lemma gbp_status_byte_lor_masks (s : gbp_printer_status_t) :
  gbp_status_byte s =
  lor_all (map status_mask (List.filter (status_field s) all_flags)).
Proof. status_cases s; reflexivity. Qed.

(** X7.  Testing a value against a mask [GBP_STATUS_MASK_*] agrees with
    the getbit macro of the flag: [X & MASK] is the mask when the macro
    reads 1 and zero when it reads 0; and a byte is the bitwise OR of
    the masks of the flags its getbit macros read as 1. *)
Theorem status_mask_getbit (x : Z) :
  0 <= x <= 255 ->
  (forall f, Z.land x (status_mask f) = status_mask f * status_bit_getbit f x) /\
  x = lor_all (map status_mask
        (List.filter (fun f => int_to_bool (status_bit_getbit f x)) all_flags)).
Proof.
  intros Hx. split.
  - intros f. destruct (status_bit_range f) as [Hpos0 _].
    rewrite status_mask_shift, land_shiftl_1 by assumption.
    rewrite status_bit_getbit_testbit.
    destruct (Z.testbit x (status_bit f)); cbn [CInt.of_bool]; lia.
  - rewrite <- (gbp_status_byte_of_byte x Hx) at 1.
    rewrite gbp_status_byte_lor_masks. reflexivity.
Qed.

Lemma status_mask_getbit_witness :
  0 <= 0xA6 <= 255 /\
  (forall f, Z.land 0xA6 (status_mask f)
             = status_mask f * status_bit_getbit f 0xA6) /\
  0xA6 = lor_all (map status_mask
           (List.filter (fun f => int_to_bool (status_bit_getbit f 0xA6))
              all_flags)).
Proof.
  split; [lia |]. apply (status_mask_getbit 0xA6). lia.
Defined.

(** * The single-bit macros as arithmetic, and beyond the byte *)

(** Setting a clear bit adds its weight. *)
Lemma gpb_setBit_clear_add (X pos : Z) :
  0 <= pos -> Z.testbit X pos = false -> gpb_setBit X pos = X + 2 ^ pos.
Proof.
  intros Hpos Hbit. unfold gpb_setBit.
  assert (Hdisj : Z.land X (Z.shiftl 1 pos) = 0)
    by now rewrite land_shiftl_1, Hbit.
  rewrite <- (Z.lxor_lor _ _ Hdisj), <- (Z.add_nocarry_lxor _ _ Hdisj).
  now rewrite Z.shiftl_1_l.
Qed.

(** Setting a set bit changes nothing. *)
Lemma gpb_setBit_set_id (X pos : Z) :
  0 <= pos -> Z.testbit X pos = true -> gpb_setBit X pos = X.
Proof.
  intros Hpos Hbit. apply Z.bits_inj'. intros i _.
  rewrite gpb_setBit_testbit by assumption.
  destruct (Z.eqb_spec i pos) as [-> | _].
  - now rewrite Hbit.
  - apply orb_false_r.
Qed.

(** Clearing a set bit subtracts its weight. *)
Lemma gpb_unsetBit_set_sub (X pos : Z) :
  0 <= pos -> Z.testbit X pos = true -> gpb_unsetBit X pos = X - 2 ^ pos.
Proof.
  intros Hpos Hbit. unfold gpb_unsetBit.
  rewrite <- Z.ldiff_land, Z.shiftl_1_l.
  symmetry. apply Z.sub_nocarry_ldiff.
  apply Z.bits_inj'. intros i _.
  rewrite Z.ldiff_spec, Z.bits_0, Z.pow2_bits_eqb by assumption.
  destruct (Z.eqb_spec pos i) as [<- | _]; [| reflexivity].
  now rewrite Hbit.
Qed.

(** Clearing a clear bit changes nothing. *)
Lemma gpb_unsetBit_clear_id (X pos : Z) :
  0 <= pos -> Z.testbit X pos = false -> gpb_unsetBit X pos = X.
Proof.
  intros Hpos Hbit. apply Z.bits_inj'. intros i _.
  rewrite gpb_unsetBit_testbit by assumption.
  destruct (Z.eqb_spec i pos) as [-> | _].
  - now rewrite Hbit.
  - apply andb_true_r.
Qed.

(** X8.  On a byte and a bit position 0..7, [gpb_setBit] adds the
    weight 2^pos of the bit when [gpb_getBit] reads 0 and changes
    nothing when it reads 1; [gpb_unsetBit] subtracts the weight when
    [gpb_getBit] reads 1 and changes nothing when it reads 0. *)
Theorem gpb_bit_macros_arith (x pos : Z) :
  0 <= x <= 255 ->
  0 <= pos <= 7 ->
  gpb_setBit x pos = x + 2 ^ pos * (1 - gpb_getBit x pos) /\
  gpb_unsetBit x pos = x - 2 ^ pos * gpb_getBit x pos.
Proof.
  intros _ [Hpos0 _].
  rewrite gpb_getBit_testbit by assumption.
  destruct (Z.testbit x pos) eqn:Hbit; cbn [CInt.of_bool]; split.
  - rewrite gpb_setBit_set_id by assumption. lia.
  - rewrite gpb_unsetBit_set_sub by assumption. lia.
  - rewrite gpb_setBit_clear_add by assumption. lia.
  - rewrite gpb_unsetBit_clear_id by assumption. lia.
Qed.

Lemma gpb_bit_macros_arith_witness :
  0 <= 0x5A <= 255 /\ 0 <= 2 <= 7 /\
  gpb_setBit 0x5A 2 = 0x5A + 2 ^ 2 * (1 - gpb_getBit 0x5A 2) /\
  gpb_unsetBit 0x5A 2 = 0x5A - 2 ^ 2 * gpb_getBit 0x5A 2.
Proof.
  split; [lia |]. split; [lia |].
  apply (gpb_bit_macros_arith 0x5A 2); lia.
Defined.

(** X9.  A bit position 8..14 is outside a byte but inside an [int]:
    there [gpb_getBit] on a byte reads 0, [gpb_unsetBit] changes
    nothing, and [gpb_setBit] adds 2^pos, an [int] value that is no
    longer a byte and that an assignment to a [uint8_t] cuts back to
    the byte it was. *)
Theorem gpb_bit_macros_above_byte (x pos : Z) :
  0 <= x <= 255 ->
  8 <= pos <= 14 ->
  gpb_getBit x pos = 0 /\
  gpb_unsetBit x pos = x /\
  gpb_setBit x pos = x + 2 ^ pos /\
  255 < gpb_setBit x pos <= CInt.INT_MAX /\
  CInt.to_uint8 (gpb_setBit x pos) = x /\
  CInt.in_int (Z.shiftl 1 pos) /\
  CInt.in_int (Z.lnot (Z.shiftl 1 pos)).
Proof.
  intros Hx Hpos.
  assert (Hbit : Z.testbit x pos = false)
    by (apply in_uint8_high_bits; [exact Hx | lia]).
  assert (Hset : gpb_setBit x pos = x + 2 ^ pos)
    by (apply gpb_setBit_clear_add; [lia | exact Hbit]).
  assert (Hpow : exists k, 1 <= k <= 64 /\ 2 ^ pos = 256 * k).
  { exists (2 ^ (pos - 8)). split.
    - pose proof (Z.pow_le_mono_r 2 0 (pos - 8) ltac:(lia) ltac:(lia)).
      pose proof (Z.pow_le_mono_r 2 (pos - 8) 6 ltac:(lia) ltac:(lia)).
      change (2 ^ 0) with 1 in *. change (2 ^ 6) with 64 in *. lia.
    - change 256 with (2 ^ 8). rewrite <- Z.pow_add_r by lia.
      f_equal. lia. }
  destruct Hpow as (k & Hk & Hpow).
  repeat apply conj.
  - rewrite gpb_getBit_testbit by lia. now rewrite Hbit.
  - apply gpb_unsetBit_clear_id; [lia | exact Hbit].
  - exact Hset.
  - rewrite Hset, Hpow. lia.
  - rewrite Hset, Hpow. unfold CInt.INT_MAX. lia.
  - rewrite Hset, Hpow. unfold CInt.to_uint8.
    rewrite Z.mul_comm, Z.mod_add by lia. apply Z.mod_small. lia.
  - rewrite Z.shiftl_1_l, Hpow. unfold CInt.INT_MIN. lia.
  - rewrite Z.shiftl_1_l, Hpow. unfold CInt.INT_MAX. lia.
  - rewrite Z.shiftl_1_l, Hpow. unfold Z.lnot, CInt.INT_MIN. lia.
  - rewrite Z.shiftl_1_l, Hpow. unfold Z.lnot, CInt.INT_MAX. lia.
Qed.

Lemma gpb_bit_macros_above_byte_witness :
  0 <= 0x5A <= 255 /\ 8 <= 9 <= 14 /\
  gpb_getBit 0x5A 9 = 0 /\
  gpb_unsetBit 0x5A 9 = 0x5A /\
  gpb_setBit 0x5A 9 = 0x5A + 2 ^ 9 /\
  255 < gpb_setBit 0x5A 9 <= CInt.INT_MAX /\
  CInt.to_uint8 (gpb_setBit 0x5A 9) = 0x5A /\
  CInt.in_int (Z.shiftl 1 9) /\
  CInt.in_int (Z.lnot (Z.shiftl 1 9)).
Proof.
  split; [lia |]. split; [lia |].
  apply (gpb_bit_macros_above_byte 0x5A 9); lia.
Defined.

(** X10.  On a byte and bit positions 0..7: setting or clearing a bit
    twice is the same as once; of a set and a clear of the same bit the
    later one decides; [gpb_getBit] reads 1 after a set and 0 after a
    clear of its bit; and a set or a clear of one bit neither changes
    what [gpb_getBit] reads at another bit nor depends on the order
    with a set or a clear of that other bit. *)
Theorem gpb_bit_macros_compose (x p q : Z) :
  0 <= x <= 255 ->
  0 <= p <= 7 ->
  0 <= q <= 7 ->
  (gpb_setBit (gpb_setBit x p) p = gpb_setBit x p /\
   gpb_unsetBit (gpb_unsetBit x p) p = gpb_unsetBit x p /\
   gpb_unsetBit (gpb_setBit x p) p = gpb_unsetBit x p /\
   gpb_setBit (gpb_unsetBit x p) p = gpb_setBit x p /\
   gpb_getBit (gpb_setBit x p) p = 1 /\
   gpb_getBit (gpb_unsetBit x p) p = 0) /\
  (p <> q ->
   gpb_getBit (gpb_setBit x p) q = gpb_getBit x q /\
   gpb_getBit (gpb_unsetBit x p) q = gpb_getBit x q /\
   gpb_setBit (gpb_setBit x q) p = gpb_setBit (gpb_setBit x p) q /\
   gpb_unsetBit (gpb_unsetBit x q) p = gpb_unsetBit (gpb_unsetBit x p) q /\
   gpb_setBit (gpb_unsetBit x q) p = gpb_unsetBit (gpb_setBit x p) q).
Proof.
  intros _ [Hp _] [Hq _]. split.
  - repeat apply conj; try bit_macros_eq gpb_setBit_testbit gpb_unsetBit_testbit p p.
    + rewrite gpb_getBit_testbit, gpb_setBit_testbit by assumption.
      now rewrite Z.eqb_refl, orb_true_r.
    + rewrite gpb_getBit_testbit, gpb_unsetBit_testbit by assumption.
      now rewrite Z.eqb_refl, andb_false_r.
  - intros Hne.
    assert (Hqp : (q =? p) = false) by (apply Z.eqb_neq; congruence).
    repeat apply conj; try bit_macros_eq gpb_setBit_testbit gpb_unsetBit_testbit p q.
    + rewrite !gpb_getBit_testbit, gpb_setBit_testbit by assumption.
      now rewrite Hqp, orb_false_r.
    + rewrite !gpb_getBit_testbit, gpb_unsetBit_testbit by assumption.
      now rewrite Hqp, andb_true_r.
Qed.

Lemma gpb_bit_macros_compose_witness :
  0 <= 0x5A <= 255 /\ 0 <= 2 <= 7 /\ 0 <= 6 <= 7 /\ 2 <> 6 /\
  gpb_unsetBit (gpb_setBit 0x5A 2) 2 = gpb_unsetBit 0x5A 2 /\
  gpb_setBit (gpb_unsetBit 0x5A 6) 2 = gpb_unsetBit (gpb_setBit 0x5A 2) 6.
Proof.
  split; [lia |]. split; [lia |]. split; [lia |]. split; [lia |].
  split.
  - apply (proj1 (gpb_bit_macros_compose 0x5A 2 6
                    ltac:(lia) ltac:(lia) ltac:(lia))).
  - apply (proj2 (gpb_bit_macros_compose 0x5A 2 6
                    ltac:(lia) ltac:(lia) ltac:(lia))). lia.
Defined.
